(** * node-x12: the functional group (GS/GE envelope) of an X12 document

    A shallow embedding of [src/X12FunctionalGroup.ts].  The class keeps a GS
    header, a GE trailer and an array of transactions; its methods mutate the
    object in place and fail with the runtime's [TypeError] when they read a
    property of a field that is still [undefined].  The methods are therefore
    embedded in a small state-and-exception monad over the object's fields,
    one monadic step per statement of the source.

    The classes the group works with ([X12Segment], [X12Element],
    [X12Transaction], the [JSEDINotation] mirror, the serialization options)
    are defined in other files of the repository; what the group needs of them
    is modelled from the specification, and each such definition says so.
    Two things stay parameters: how missing options are filled in
    ([Defaults]), and which lists of values a segment accepts
    ([SegmentRules]); [setHeader] throws where the list is refused, so the
    properties of what it establishes are stated for the calls that return.

    Layout: values and failures; options; elements, segments, transactions and
    the notation; the group and its methods; sample data; then the properties,
    first the equations that describe each method as a whole, then the
    theorems. *)

From stdpp Require Import base option list strings pretty.

(** ** JavaScript values and failures *)

(** What a method call ends with when it does not return: [TypeError] is the
    runtime's error for reading a property of [undefined];
    [IncompleteContainerError] is the error kind the specification names in its
    section 7 (no statement of the sources raises it); [GeneratorError] is
    what [X12Segment.setElements] throws on a list of values it refuses. *)
Inductive exn : Type :=
| TypeError
| IncompleteContainerError
| GeneratorError.

Inductive result (A : Type) : Type :=
| Ok (a : A)
| Throw (e : exn).
Arguments Ok {A} a.
Arguments Throw {A} e.

#[global] Instance exn_eq_dec : EqDecision exn.
Proof. solve_decision. Defined.

#[global] Instance result_eq_dec `{EqDecision A} : EqDecision (result A).
Proof. solve_decision. Defined.

#[global] Instance result_ret : MRet result := @Ok.
#[global] Instance result_bind : MBind result := fun A B f r =>
  match r with
  | Ok a => f a
  | Throw e => Throw e
  end.
#[global] Instance result_fmap : FMap result := fun A B f r =>
  match r with
  | Ok a => Ok (f a)
  | Throw e => Throw e
  end.

Definition is_Ok {A} (r : result A) : bool :=
  match r with
  | Ok _ => true
  | Throw _ => false
  end.

(** A value of TypeScript type [string] as the compiler of this code base
    (no strict null checks) admits it: a string, or [null]. *)
Definition jsstring : Type := option string.

(** ECMAScript's ToString on such a value, as string concatenation applies it. *)
Definition js_to_string (v : jsstring) : string :=
  match v with
  | Some s => s
  | None => "null"
  end.

(** The template literal [`${n}`] on an array length: its decimal numeral. *)
Definition decimal (n : nat) : string := pretty n.

(** ** Serialization options *)

(** Modelled from the spec: [X12SerializationOptions] (its file is not among
    the sources).  Section 4.2 lists the recognised fields; the repetition
    separator is optional (section 3). *)
Record X12SerializationOptions : Type := {
  elementDelimiter : string;
  subElementDelimiter : string;
  segmentTerminator : string;
  repetitionSeparator : option string;
  endOfLine : string;
  format : bool
}.

#[global] Instance X12SerializationOptions_eq_dec : EqDecision X12SerializationOptions.
Proof. solve_decision. Defined.

(** [defaultSerializationOptions(options?)] fills in the options a caller left
    out.  The function and its table of default values are injected
    collaborators (section 6 of the spec) that the sources do not contain, so
    the development is parametric in them. *)
Class Defaults : Type :=
  defaultSerializationOptions : option X12SerializationOptions -> X12SerializationOptions.

(** [X12Segment.setElements] checks the list it is given against the layout
    of the segment's tag (a GS segment, for one, is refused a list that is not
    of its eight values) and throws on a list it refuses.  The layouts are in
    files the sources do not contain: which lists a segment of a given tag
    accepts is a parameter of the development. *)
Class SegmentRules : Type :=
  accepts : string -> list jsstring -> bool.

(** Modelled from the spec: the tags of the envelope segments in
    [X12SupportedSegments] (section 3: a group is bounded by GS/GE). *)
Module X12SupportedSegments.
Definition GS : string := "GS".
Definition GE : string := "GE".
End X12SupportedSegments.

(** ** Elements and segments *)

Module X12Element.
(** Modelled from the spec: [X12Element] (section 3: a value and an ordered
    sequence of sub-elements). *)
Record t : Type := mk {
  value : jsstring;
  subElements : list string
}.

(** Modelled from the spec: the constructor call [new X12Element(value)], an
    element of that value with no sub-elements. *)
Definition new (v : jsstring) : t := {| value := v; subElements := [] |}.

(** Modelled from the spec: the text of an element (section 3: an element
    with no sub-elements serializes as its plain value, one with sub-elements
    joins them with the sub-element delimiter). *)
Definition toString (o : X12SerializationOptions) (e : t) : string :=
  match subElements e with
  | [] => js_to_string (value e)
  | subs => String.concat (subElementDelimiter o) subs
  end.
End X12Element.

#[global] Instance X12Element_eq_dec : EqDecision X12Element.t.
Proof. solve_decision. Defined.

Module X12Segment.
(** Modelled from the spec: [X12Segment] (section 3: a tag and an ordered
    sequence of elements; the constructor call in the group's source shows
    that a segment also keeps serialization options). *)
Record t : Type := mk {
  tag : string;
  elements : list X12Element.t;
  options : X12SerializationOptions
}.

(** Modelled from the spec: the constructor call [new X12Segment(tag, options)],
    a segment of that tag with no elements yet. *)
Definition new (tg : string) (o : X12SerializationOptions) : t :=
  {| tag := tg; elements := []; options := o |}.

(** [elements.map(x => x.value)], as [toJSON] reads a segment. *)
Definition values (s : t) : list jsstring := X12Element.value <$> elements s.

(** The element that [setElements] makes of a value: the value is stored as
    its string, [null] as the string of that name. *)
Definition stored (v : jsstring) : X12Element.t := X12Element.new (Some (js_to_string v)).

(** Modelled from the spec: [setElements(values)] makes the segment hold one
    element per given value, in order (section 6 lists it among the
    construction operations).  The spec does not say that the method checks
    the list first: a list the segment's tag does not accept makes it throw
    [GeneratorError] and leaves the segment as it was. *)
Definition setElements `{SegmentRules} (vs : list jsstring) (s : t) : result t :=
  if accepts (tag s) vs
  then Ok {| tag := tag s; elements := stored <$> vs; options := options s |}
  else Throw GeneratorError.

(** Modelled from the spec: [replaceElement(value, position)] (sections 3 and
    8: elements are addressed by position, counted from 1) puts a new element
    at that position; where the segment has no such position the model leaves
    it as it is (the spec does not say). *)
Definition replaceElement (v : jsstring) (position : nat) (s : t) : t :=
  match position with
  | 0 => s
  | S index =>
      {| tag := tag s;
         elements := <[index := X12Element.new v]> (elements s);
         options := options s |}
  end.

(** Modelled from the spec: [valueOf(position)] (section 8) is the value of
    the element at that position, counted from 1; [null] where there is
    none. *)
Definition valueOf (position : nat) (s : t) : jsstring :=
  match position with
  | 0 => None
  | S index => elements s !! index ≫= X12Element.value
  end.

(** Modelled from the spec: the text of a segment (section 4.2: the tag, then
    the elements, joined by the element delimiter, followed by the segment
    terminator). *)
Definition toString (o : X12SerializationOptions) (s : t) : string :=
  String.concat (elementDelimiter o) (tag s :: (X12Element.toString o <$> elements s))
  +:+ segmentTerminator o.
End X12Segment.

#[global] Instance X12Segment_eq_dec : EqDecision X12Segment.t.
Proof. solve_decision. Defined.

(** The separator a container puts after a piece: [endOfLine] when [format] is
    on, nothing otherwise ([if (options.format) edi += options.endOfLine]). *)
Definition lineBreak (o : X12SerializationOptions) : string :=
  if format o then endOfLine o else "".

(** ** Transactions *)

Module X12Transaction.
(** Modelled from the spec: [X12Transaction] (section 3: an ST header, an SE
    trailer, both present or both absent, and the ordered body segments). *)
Record t : Type := mk {
  header : option X12Segment.t;
  trailer : option X12Segment.t;
  segments : list X12Segment.t;
  options : X12SerializationOptions
}.

(** Modelled from the spec: the constructor call [new X12Transaction(options)],
    a transaction with no header, no trailer and no segments. *)
Definition new (o : X12SerializationOptions) : t :=
  {| header := None; trailer := None; segments := []; options := o |}.

(** Modelled from the spec: the text of a transaction (section 4.2: the shape
    of every container, the header, each body segment in order, the trailer,
    a line break after every piece but the last); reading a header or trailer
    that was never set is the runtime's [TypeError]. *)
Definition toString (o : X12SerializationOptions) (tx : t) : result string :=
  match header tx, trailer tx with
  | Some h, Some tr =>
      Ok (X12Segment.toString o h +:+ lineBreak o
          +:+ foldr (fun s edi => X12Segment.toString o s +:+ lineBreak o +:+ edi)
                    (X12Segment.toString o tr) (segments tx))
  | _, _ => Throw TypeError
  end.
End X12Transaction.

#[global] Instance X12Transaction_eq_dec : EqDecision X12Transaction.t.
Proof. solve_decision. Defined.

(** ** The generic notation *)

Module JSEDINotation.
(** Modelled from the spec: the classes of [JSEDINotation] (section 3: a
    delimiter-free mirror of the tree, each segment reduced to its tag and
    the list of its raw values; section 4.3: a container is its header's
    values and the list of its children). *)
Record JSEDISegment : Type := {
  seg_tag : string;
  seg_elements : list jsstring
}.

Record JSEDITransaction : Type := {
  tx_header : list jsstring;
  tx_segments : list JSEDISegment
}.

Record JSEDIFunctionalGroup : Type := {
  header : list jsstring;
  transactions : list JSEDITransaction
}.

(** Modelled from the spec: [new JSEDIFunctionalGroup(header)], a group
    notation of that header with no transactions yet. *)
Definition new (h : list jsstring) : JSEDIFunctionalGroup :=
  {| header := h; transactions := [] |}.

(** Modelled from the spec: [JSEDITransaction.addSegment(tag, elements)]
    appends a segment. *)
Definition tx_addSegment (tg : string) (es : list jsstring) (tx : JSEDITransaction)
  : JSEDITransaction :=
  {| tx_header := tx_header tx;
     tx_segments := tx_segments tx ++ [{| seg_tag := tg; seg_elements := es |}] |}.

(** Modelled from the spec: [JSEDIFunctionalGroup.addTransaction(header)]
    appends an empty transaction and returns it.  The caller goes on to mutate
    the returned object, which is the one stored in the group: the model
    returns its index in [transactions] as the reference. *)
Definition addTransaction (h : list jsstring) (g : JSEDIFunctionalGroup)
  : JSEDIFunctionalGroup * nat :=
  ({| header := header g;
      transactions := transactions g ++ [{| tx_header := h; tx_segments := [] |}] |},
   length (transactions g)).

(** Modelled from the spec: [addSegment(tag, elements)] called through the
    reference [ref], on the transaction of the group that it points to. *)
Definition addSegment (ref : nat) (tg : string) (es : list jsstring)
  (g : JSEDIFunctionalGroup) : JSEDIFunctionalGroup :=
  {| header := header g;
     transactions := alter (tx_addSegment tg es) ref (transactions g) |}.
End JSEDINotation.

#[global] Instance JSEDISegment_eq_dec : EqDecision JSEDINotation.JSEDISegment.
Proof. solve_decision. Defined.
#[global] Instance JSEDITransaction_eq_dec : EqDecision JSEDINotation.JSEDITransaction.
Proof. solve_decision. Defined.
#[global] Instance JSEDIFunctionalGroup_eq_dec : EqDecision JSEDINotation.JSEDIFunctionalGroup.
Proof. solve_decision. Defined.

(** ** The functional group *)

Module X12FunctionalGroup.
(** The fields of the class.  [header] and [trailer] are declared without an
    initialiser, so they are [undefined] (here [None]) until a method assigns
    them. *)
Record t : Type := mk {
  header : option X12Segment.t;
  trailer : option X12Segment.t;
  transactions : list X12Transaction.t;
  options : X12SerializationOptions
}.

#[global] Instance eq_dec : EqDecision t.
Proof. solve_decision. Defined.

Definition set_header (h : option X12Segment.t) (g : t) : t :=
  {| header := h; trailer := trailer g;
     transactions := transactions g; options := options g |}.

Definition set_trailer (tr : option X12Segment.t) (g : t) : t :=
  {| header := header g; trailer := tr;
     transactions := transactions g; options := options g |}.

(** [this.transactions.push(tx)] *)
Definition push_transaction (tx : X12Transaction.t) (g : t) : t :=
  {| header := header g; trailer := trailer g;
     transactions := transactions g ++ [tx]; options := options g |}.

(** A method body: it runs on the object, leaves it in a new state, and
    either returns a value or throws.  A throw keeps the mutations made
    before it. *)
Definition M (A : Type) : Type := t -> t * result A.

#[global] Instance ret : MRet M := fun A a g => (g, Ok a).

#[global] Instance bind : MBind M := fun A B f m g =>
  match m g with
  | (g', Ok a) => f a g'
  | (g', Throw e) => (g', Throw e)
  end.

(** [this.f] *)
Definition read {A} (f : t -> A) : M A := fun g => (g, Ok (f g)).

(** [this.f = v] and other updates of the object in place *)
Definition write (upd : t -> t) : M unit := fun g => (upd g, Ok tt).

(** [x.p] for an [x] that may be [undefined] *)
Definition deref {A} (x : option A) : M A := fun g =>
  match x with
  | Some a => (g, Ok a)
  | None => (g, Throw TypeError)
  end.

(** A computation on other objects that may throw. *)
Definition lift {A} (r : result A) : M A := fun g => (g, r).

(** The object after a method ran, and what the call answered. *)
Definition after {A} (m : M A) (g : t) : t := (m g).1.
Definition answer {A} (m : M A) (g : t) : result A := (m g).2.

(** [if (options.format) { edi += options.endOfLine }] *)
Definition endLine (o : X12SerializationOptions) (edi : string) : string :=
  if format o then edi +:+ endOfLine o else edi.

Section Methods.
Context `{Defaults} `{SegmentRules}.

(** [new X12FunctionalGroup(options?)] *)
Definition new (o : option X12SerializationOptions) : t :=
  {| header := None; trailer := None; transactions := [];
     options := defaultSerializationOptions o |}.

(** The options a call works with:
    [options !== undefined ? defaultSerializationOptions(options) : this.options] *)
Definition effective (o : option X12SerializationOptions) (g : t)
  : X12SerializationOptions :=
  match o with
  | Some o' => defaultSerializationOptions (Some o')
  | None => options g
  end.

(** The first statement of every method: [options = ...] as above. *)
Definition resolve (o : option X12SerializationOptions) : M X12SerializationOptions :=
  read (effective o).

(** [_setTrailer(options?)] *)
Definition _setTrailer (o : option X12SerializationOptions) : M unit :=
  o ← resolve o;
  write (set_trailer (Some (X12Segment.new X12SupportedSegments.GE o)));;
  tr ← read trailer ≫= deref;
  n ← read (fun g => length (transactions g));
  h ← read header ≫= deref;
  tr ← lift (X12Segment.setElements [Some (decimal n); X12Segment.valueOf 6 h] tr);
  write (set_trailer (Some tr)).

(** [setHeader(elements, options?)] *)
Definition setHeader (elements : list jsstring) (o : option X12SerializationOptions)
  : M unit :=
  o ← resolve o;
  write (set_header (Some (X12Segment.new X12SupportedSegments.GS o)));;
  h ← read header ≫= deref;
  h ← lift (X12Segment.setElements elements h);
  write (set_header (Some h));;
  _setTrailer (Some o).

(** [addTransaction(options?)] *)
Definition addTransaction (o : option X12SerializationOptions) : M X12Transaction.t :=
  o ← resolve o;
  let transaction := X12Transaction.new o in
  write (push_transaction transaction);;
  tr ← read trailer ≫= deref;
  n ← read (fun g => length (transactions g));
  write (set_trailer (Some (X12Segment.replaceElement (Some (decimal n)) 1 tr)));;
  mret transaction.

(** The [for] loop of [toString]: [edi] grows by each transaction's text
    and, when [format] is on, by the line ending. *)
Fixpoint toString_loop (o : X12SerializationOptions) (txs : list X12Transaction.t)
  (edi : string) : result string :=
  match txs with
  | [] => Ok edi
  | tx :: rest =>
      s ← X12Transaction.toString o tx;
      toString_loop o rest (endLine o (edi +:+ s))
  end.

(** [toString(options?)] *)
Definition toString (o : option X12SerializationOptions) : M string :=
  o ← resolve o;
  h ← read header ≫= deref;
  let edi := endLine o (X12Segment.toString o h) in
  txs ← read transactions;
  edi ← lift (toString_loop o txs edi);
  tr ← read trailer ≫= deref;
  mret (edi +:+ X12Segment.toString o tr).

(** The inner [forEach] of [toJSON]: every body segment is added, by tag
    and values, to the notation's transaction that [ref] refers to. *)
Definition toJSON_segments (ref : nat) (segments : list X12Segment.t)
  (jsen : JSEDINotation.JSEDIFunctionalGroup) : JSEDINotation.JSEDIFunctionalGroup :=
  foldl (fun jsen segment =>
           JSEDINotation.addSegment ref (X12Segment.tag segment)
             (X12Segment.values segment) jsen)
        jsen segments.

(** The outer [forEach] of [toJSON]. *)
Fixpoint toJSON_transactions (txs : list X12Transaction.t)
  (jsen : JSEDINotation.JSEDIFunctionalGroup)
  : result JSEDINotation.JSEDIFunctionalGroup :=
  match txs with
  | [] => Ok jsen
  | transaction :: rest =>
      match X12Transaction.header transaction with
      | None => Throw TypeError
      | Some th =>
          let '(jsen, jsenTransaction) :=
            JSEDINotation.addTransaction (X12Segment.values th) jsen in
          toJSON_transactions rest
            (toJSON_segments jsenTransaction (X12Transaction.segments transaction) jsen)
      end
  end.

(** [toJSON()] *)
Definition toJSON : M JSEDINotation.JSEDIFunctionalGroup :=
  h ← read header ≫= deref;
  let jsen := JSEDINotation.new (X12Segment.values h) in
  txs ← read transactions;
  lift (toJSON_transactions txs jsen).

(** The public methods as calls, to speak of sequences of them. *)
Inductive call : Type :=
| SetHeader (elements : list jsstring) (o : option X12SerializationOptions)
| AddTransaction (o : option X12SerializationOptions)
| ToString (o : option X12SerializationOptions)
| ToJSON.

(** The object after one call, whether the call returned or threw. *)
Definition perform (g : t) (c : call) : t :=
  match c with
  | SetHeader elements o => after (setHeader elements o) g
  | AddTransaction o => after (addTransaction o) g
  | ToString o => after (toString o) g
  | ToJSON => after toJSON g
  end.

Definition perform_all (cs : list call) (g : t) : t := foldl perform g cs.
End Methods.

(** A group of a well-formed tree: its header and trailer are set, and so are
    those of each of its transactions. *)
Definition wellFormed (g : t) : bool :=
  bool_decide (is_Some (header g)) && bool_decide (is_Some (trailer g))
  && forallb (fun tx => bool_decide (is_Some (X12Transaction.header tx))
                        && bool_decide (is_Some (X12Transaction.trailer tx)))
             (transactions g).

(** What [toJSON] is to emit, in the words of its description: the header's
    values and, for each transaction in order, its header's values and, for
    each body segment in order, the tag and the values. *)
Definition segmentNotation (s : X12Segment.t) : JSEDINotation.JSEDISegment :=
  {| JSEDINotation.seg_tag := X12Segment.tag s;
     JSEDINotation.seg_elements := X12Segment.values s |}.

Definition transactionNotation (tx : X12Transaction.t)
  : result JSEDINotation.JSEDITransaction :=
  match X12Transaction.header tx with
  | None => Throw TypeError
  | Some th =>
      Ok {| JSEDINotation.tx_header := X12Segment.values th;
            JSEDINotation.tx_segments := segmentNotation <$> X12Transaction.segments tx |}
  end.

Definition groupNotation (g : t) : result JSEDINotation.JSEDIFunctionalGroup :=
  match header g with
  | None => Throw TypeError
  | Some h =>
      txs ← mapM transactionNotation (transactions g);
      Ok {| JSEDINotation.header := X12Segment.values h;
            JSEDINotation.transactions := txs |}
  end.




(** The transaction count that the trailer shows: its first element. *)
Definition shownCount (g : t) : jsstring := trailer g ≫= X12Segment.valueOf 1.

(** The trailer's count element is the number of transactions, in decimal. *)
Definition countSynchronized (g : t) : Prop :=
  shownCount g = Some (decimal (length (transactions g))).

#[global] Instance countSynchronized_dec g : Decision (countSynchronized g).
Proof. unfold countSynchronized. apply _. Defined.
End X12FunctionalGroup.

(** ** Sample data *)

Module Sample.
Definition LF : string := String (Ascii.ascii_of_nat 10) "".

Definition compact : X12SerializationOptions :=
  {| elementDelimiter := "*"; subElementDelimiter := ">"; segmentTerminator := "~";
     repetitionSeparator := None; endOfLine := LF; format := false |}.

Definition formatted : X12SerializationOptions :=
  {| elementDelimiter := "*"; subElementDelimiter := ">"; segmentTerminator := "~";
     repetitionSeparator := None; endOfLine := LF; format := true |}.

(** A filling-in of defaults: options that are given are complete already. *)
Definition defaults : Defaults := fun o => default compact o.

Definition segment (tg : string) (vs : list string) : X12Segment.t :=
  {| X12Segment.tag := tg;
     X12Segment.elements := (fun v => X12Element.new (Some v)) <$> vs;
     X12Segment.options := compact |}.

(** Rules for the envelope segments, by the number of their values: a GS
    segment takes eight, a GE segment two. *)
Definition rules : SegmentRules := fun tg vs =>
  if decide (tg = "GS") then bool_decide (length vs = 8)
  else if decide (tg = "GE") then bool_decide (length vs = 2)
  else true.

Definition gsValues : list string :=
  ["PO"; "SENDER"; "RECEIVER"; "20240101"; "1200"; "7"; "X"; "004010"].

Definition order : X12Transaction.t :=
  {| X12Transaction.header := Some (segment "ST" ["850"; "0001"]);
     X12Transaction.trailer := Some (segment "SE" ["3"; "0001"]);
     X12Transaction.segments := [segment "BEG" ["00"; "NE"; "PO1"]];
     X12Transaction.options := compact |}.

(** A group put together by hand, its GE count (5) at odds with its one
    transaction. *)
Definition handBuilt : X12FunctionalGroup.t :=
  {| X12FunctionalGroup.header := Some (segment "GS" gsValues);
     X12FunctionalGroup.trailer := Some (segment "GE" ["5"; "7"]);
     X12FunctionalGroup.transactions := [order];
     X12FunctionalGroup.options := compact |}.

(** A group as [new X12FunctionalGroup()] leaves it. *)
Definition fresh : X12FunctionalGroup.t := X12FunctionalGroup.new (H := defaults) None.
End Sample.

(** ** Notions for sequences of calls *)

(** The [addTransaction] calls among a sequence of calls. *)
Definition isAddTransaction (c : X12FunctionalGroup.call) : bool :=
  match c with
  | X12FunctionalGroup.AddTransaction _ => true
  | _ => false
  end.

Definition addTransactionCalls (cs : list X12FunctionalGroup.call) : nat :=
  length (List.filter isAddTransaction cs).

(** The calls that are not [setHeader]. *)
Definition isSetHeader (c : X12FunctionalGroup.call) : bool :=
  match c with
  | X12FunctionalGroup.SetHeader _ _ => true
  | _ => false
  end.

(** The envelope as a [setHeader] that returned leaves it and
    [addTransaction] keeps it: a GS header of elements as [setElements] stores
    them, and a GE trailer of exactly two such elements, the count and the
    value of the header's sixth element. *)
Definition enveloped (g : X12FunctionalGroup.t) : Prop :=
  exists h tr,
    X12FunctionalGroup.header g = Some h
    /\ X12FunctionalGroup.trailer g = Some tr
    /\ X12Segment.tag h = X12SupportedSegments.GS
    /\ X12Segment.elements h = X12Segment.stored <$> X12Segment.values h
    /\ X12Segment.tag tr = X12SupportedSegments.GE
    /\ X12Segment.elements tr
       = X12Segment.stored
           <$> [Some (decimal (length (X12FunctionalGroup.transactions g)));
                X12Segment.valueOf 6 h].

(** * Properties *)

(** ** Strings *)

Lemma string_app_nil_r (s : string) : s +:+ "" = s.
Proof. induction s as [|a s IH]; [done|]. change (String a (s +:+ "") = String a s). by rewrite IH. Qed.

Lemma string_app_assoc (s1 s2 s3 : string) : (s1 +:+ s2) +:+ s3 = s1 +:+ s2 +:+ s3.
Proof.
  induction s1 as [|a s1 IH]; [done|].
  change (String a ((s1 +:+ s2) +:+ s3) = String a (s1 +:+ s2 +:+ s3)). by rewrite IH.
Qed.

Lemma concat_snoc (sep x y : string) (l : list string) :
  String.concat sep ((x :: l) ++ [y]) = String.concat sep (x :: l) +:+ sep +:+ y.
Proof.
  revert x. induction l as [|z l IH]; intros x; [done|].
  change (x +:+ sep +:+ String.concat sep ((z :: l) ++ [y])
          = (x +:+ sep +:+ String.concat sep (z :: l)) +:+ sep +:+ y).
  by rewrite IH, !string_app_assoc.
Qed.

Section Properties.
Context `{Defaults} `{SegmentRules}.
Import X12FunctionalGroup.

Implicit Types (g : t) (o : option X12SerializationOptions) (so : X12SerializationOptions).

Ltac run := cbv [setHeader _setTrailer addTransaction toString toJSON resolve
                 mbind bind mret ret read write deref lift after answer]; cbn.

Lemma values_stored (vs : list jsstring) :
  X12Element.value <$> (X12Segment.stored <$> vs)
  = (fun v => Some (js_to_string v)) <$> vs.
Proof. by rewrite <- list_fmap_compose. Qed.

Lemma strings_stored_as_given (vs : list jsstring) :
  Forall is_Some vs -> (fun v => Some (js_to_string v)) <$> vs = vs.
Proof.
  induction 1 as [|v vs [s ->] _ IH]; [done|].
  rewrite fmap_cons, IH. done.
Qed.

(** [setHeader] as a whole: the header is assigned before the values are
    checked, and the trailer before its own two values are. *)
Lemma setHeader_cases g elements o :
  setHeader elements o g =
  let so := effective o g in
  let so' := defaultSerializationOptions (Some so) in
  if accepts X12SupportedSegments.GS elements then
    let h := X12Segment.mk X12SupportedSegments.GS (X12Segment.stored <$> elements) so in
    let vs := [Some (decimal (length (transactions g))); X12Segment.valueOf 6 h] in
    if accepts X12SupportedSegments.GE vs then
      ({| header := Some h;
          trailer := Some (X12Segment.mk X12SupportedSegments.GE
                             (X12Segment.stored <$> vs) so');
          transactions := transactions g; options := options g |}, Ok tt)
    else
      ({| header := Some h;
          trailer := Some (X12Segment.new X12SupportedSegments.GE so');
          transactions := transactions g; options := options g |},
       Throw GeneratorError)
  else
    (set_header (Some (X12Segment.new X12SupportedSegments.GS so)) g,
     Throw GeneratorError).
Proof.
  cbv [setHeader _setTrailer resolve mbind bind mret ret read write deref lift
       X12Segment.setElements]; cbn.
  destruct (accepts X12SupportedSegments.GS elements); cbn; [|done].
  by destruct (accepts X12SupportedSegments.GE _).
Qed.

Lemma setHeader_returned g elements o :
  answer (setHeader elements o) g = Ok tt ->
  let so := effective o g in
  let h := X12Segment.mk X12SupportedSegments.GS (X12Segment.stored <$> elements) so in
  after (setHeader elements o) g =
  {| header := Some h;
     trailer :=
       Some (X12Segment.mk X12SupportedSegments.GE
               (X12Segment.stored
                  <$> [Some (decimal (length (transactions g))); X12Segment.valueOf 6 h])
               (defaultSerializationOptions (Some so)));
     transactions := transactions g; options := options g |}.
Proof.
  unfold answer, after. rewrite setHeader_cases. cbn zeta.
  destruct (accepts X12SupportedSegments.GS elements); [|done].
  by destruct (accepts X12SupportedSegments.GE _).
Qed.

Lemma setHeader_frame g elements o :
  transactions (after (setHeader elements o) g) = transactions g
  /\ options (after (setHeader elements o) g) = options g.
Proof.
  unfold after. rewrite setHeader_cases. cbn zeta.
  destruct (accepts X12SupportedSegments.GS elements); [|done].
  by destruct (accepts X12SupportedSegments.GE _).
Qed.

Lemma setHeader_throws g elements o e :
  answer (setHeader elements o) g = Throw e -> e = GeneratorError.
Proof.
  unfold answer. rewrite setHeader_cases. cbn zeta.
  destruct (accepts X12SupportedSegments.GS elements); [|by intros [= <-]].
  destruct (accepts X12SupportedSegments.GE _); [done|by intros [= <-]].
Qed.

Lemma addTransaction_eq g o :
  addTransaction o g =
  let tx := X12Transaction.new (effective o g) in
  match trailer g with
  | Some tr =>
      (set_trailer
         (Some (X12Segment.replaceElement
                  (Some (decimal (length (transactions g ++ [tx])))) 1 tr))
         (push_transaction tx g), Ok tx)
  | None => (push_transaction tx g, Throw TypeError)
  end.
Proof. destruct g as [h [tr|] txs og]; done. Qed.

Lemma endLine_lineBreak so edi : endLine so edi = edi +:+ lineBreak so.
Proof. unfold endLine, lineBreak. destruct (format so); by rewrite ?string_app_nil_r. Qed.

Lemma toString_loop_mapM so txs edi :
  toString_loop so txs edi =
  (pieces ← mapM (X12Transaction.toString so) txs;
   Ok (foldl (fun edi s => endLine so (edi +:+ s)) edi pieces)).
Proof.
  revert edi. induction txs as [|tx txs IH]; intros edi; [done|].
  cbn. destruct (X12Transaction.toString so tx) as [s|e]; [|done].
  cbn. rewrite IH. by destruct (mapM _ txs).
Qed.

Lemma foldl_endLine_concat so pieces acc last :
  foldl (fun edi s => endLine so (edi +:+ s)) acc pieces +:+ last
  = acc +:+ String.concat (lineBreak so) (pieces ++ [last]).
Proof.
  revert acc. induction pieces as [|p ps IH]; intros acc; [done|].
  cbn [foldl]. rewrite IH, endLine_lineBreak, !string_app_assoc.
  by destruct ps.
Qed.

Lemma toString_eq g o h tr :
  header g = Some h -> trailer g = Some tr ->
  toString o g =
  (g, pieces ← mapM (X12Transaction.toString (effective o g)) (transactions g);
      Ok (String.concat (lineBreak (effective o g))
            (X12Segment.toString (effective o g) h
             :: pieces ++ [X12Segment.toString (effective o g) tr]))).
Proof.
  intros Hh Htr. run. rewrite Hh, toString_loop_mapM.
  destruct (mapM _ (transactions g)) as [pieces|e]; cbn; [|done].
  rewrite Htr. do 2 f_equal.
  rewrite foldl_endLine_concat, endLine_lineBreak, string_app_assoc.
  by destruct pieces.
Qed.

Lemma toJSON_segments_eq segments l tx jsen :
  JSEDINotation.transactions jsen = l ++ [tx] ->
  toJSON_segments (length l) segments jsen =
  {| JSEDINotation.header := JSEDINotation.header jsen;
     JSEDINotation.transactions :=
       l ++ [{| JSEDINotation.tx_header := JSEDINotation.tx_header tx;
                JSEDINotation.tx_segments :=
                  JSEDINotation.tx_segments tx ++ (segmentNotation <$> segments) |}] |}.
Proof.
  revert tx jsen. induction segments as [|s segments IH]; intros tx jsen Hjsen.
  - cbn. rewrite app_nil_r. destruct jsen, tx; cbn in *; by subst.
  - unfold toJSON_segments in *. cbn [foldl].
    rewrite (IH (JSEDINotation.tx_addSegment (X12Segment.tag s) (X12Segment.values s) tx)).
    + cbn. by rewrite <- app_assoc.
    + cbn. rewrite Hjsen. rewrite <- (Nat.add_0_r (length l)).
      by rewrite alter_app_r.
Qed.

Lemma toJSON_transactions_eq txs jsen :
  toJSON_transactions txs jsen =
  (ns ← mapM transactionNotation txs;
   Ok {| JSEDINotation.header := JSEDINotation.header jsen;
         JSEDINotation.transactions := JSEDINotation.transactions jsen ++ ns |}).
Proof.
  revert jsen. induction txs as [|tx txs IH]; intros jsen.
  - cbn. rewrite app_nil_r. by destruct jsen.
  - cbn [toJSON_transactions mapM].
    pose proof (eq_refl (transactionNotation tx)) as Htx.
    unfold transactionNotation at 2 in Htx. rewrite Htx. clear Htx.
    destruct (X12Transaction.header tx) as [th|]; [|done].
    cbn. erewrite toJSON_segments_eq by done. rewrite IH.
    cbn. destruct (mapM transactionNotation txs) as [ns|e]; [|done].
    cbn. by rewrite <- app_assoc.
Qed.

Lemma toJSON_eq g : toJSON g = (g, groupNotation g).
Proof.
  run. unfold groupNotation. destruct (header g) as [h|]; [|done].
  cbn. by rewrite toJSON_transactions_eq.
Qed.




Lemma toString_after g o : after (toString o) g = g.
Proof.
  run. destruct (header g); cbn; [|done].
  destruct (toString_loop _ _ _); cbn; [|done].
  by destruct (trailer g).
Qed.

Lemma toJSON_after g : after toJSON g = g.
Proof. unfold after. by rewrite toJSON_eq. Qed.

Lemma setHeader_countSynchronized g elements o :
  answer (setHeader elements o) g = Ok tt ->
  countSynchronized (after (setHeader elements o) g).
Proof. intros Hret. by rewrite (setHeader_returned g elements o Hret). Qed.

Lemma addTransaction_countSynchronized g o :
  countSynchronized g -> countSynchronized (after (addTransaction o) g).
Proof.
  unfold countSynchronized, shownCount, after. rewrite addTransaction_eq.
  destruct (trailer g) as [tr|]; [|done]. cbn.
  destruct (X12Segment.elements tr) as [|e es]; [done|]. by intros _.
Qed.

Lemma addTransactions_countSynchronized os g :
  countSynchronized g -> countSynchronized (perform_all (AddTransaction <$> os) g).
Proof.
  revert g. induction os as [|o os IH]; intros g Hg; [done|].
  apply IH. by apply addTransaction_countSynchronized.
Qed.

(** C1, as the code has it.  The GE trailer's first element is the number of
    transactions, as a decimal numeral: every [setHeader] call that returns
    establishes this from any state of the object, every [addTransaction]
    preserves it, and so it holds after a [setHeader] that returned and any
    sequence of [addTransaction] calls. *)
Theorem trailer_count_tracks_transactions :
  (forall g elements o,
     answer (setHeader elements o) g = Ok tt ->
     countSynchronized (after (setHeader elements o) g))
  /\ (forall g o,
        countSynchronized g -> countSynchronized (after (addTransaction o) g))
  /\ (forall g elements o os,
        answer (setHeader elements o) g = Ok tt ->
        let g' := perform_all (AddTransaction <$> os) (after (setHeader elements o) g) in
        shownCount g' = Some (decimal (length (transactions g')))).
Proof.
  split; [|split].
  - apply setHeader_countSynchronized.
  - apply addTransaction_countSynchronized.
  - intros g elements o os Hret. apply addTransactions_countSynchronized.
    by apply setHeader_countSynchronized.
Qed.

Lemma addTransaction_run g o tr :
  trailer g = Some tr ->
  let tx := X12Transaction.new (effective o g) in
  answer (addTransaction o) g = Ok tx
  /\ transactions (after (addTransaction o) g) = transactions g ++ [tx]
  /\ is_Some (trailer (after (addTransaction o) g)).
Proof.
  intros Htr. unfold after, answer. rewrite addTransaction_eq, Htr. cbn. eauto.
Qed.




(** C10, as the code has it.  After a [setHeader(elements)] call that
    returned, the header is a GS segment that holds the given elements in
    order, each as its string (so exactly the given ones where none is
    [null]), and the trailer is a GE segment of two elements: the number of
    transactions as a decimal numeral, and the value of the header's sixth
    element. *)
Theorem setHeader_sets_header_and_trailer g (elements : list jsstring) o :
  answer (setHeader elements o) g = Ok tt ->
  let g' := after (setHeader elements o) g in
  exists h tr,
    header g' = Some h /\ trailer g' = Some tr
    /\ X12Segment.tag h = "GS"
    /\ X12Segment.values h = (fun v => Some (js_to_string v)) <$> elements
    /\ (Forall is_Some elements -> X12Segment.values h = elements)
    /\ X12Segment.tag tr = "GE"
    /\ X12Segment.values tr
       = [Some (decimal (length (transactions g')));
          Some (js_to_string (X12Segment.valueOf 6 h))]
    /\ (6 <= length elements -> X12Segment.valueOf 2 tr = X12Segment.valueOf 6 h).
Proof.
  intros Hret g'. unfold g'. rewrite (setHeader_returned _ _ _ Hret). cbn zeta.
  do 2 eexists. split; [done|]. split; [done|]. split; [done|].
  split; [apply values_stored|]. split.
  { intros Hall. unfold X12Segment.values. cbn [X12Segment.elements].
    rewrite values_stored. by apply strings_stored_as_given. }
  split; [done|]. split; [done|].
  intros Hlen. cbn. destruct (lookup_lt_is_Some_2 elements 5 Hlen) as [v Hv].
  by rewrite list_lookup_fmap, Hv.
Qed.

(** C4.  For a group whose header and trailer are set, [toString(options)]
    is the header's text, each transaction's text in order, and the trailer's
    text, joined by the line ending when [format] is on and by nothing
    otherwise (a transaction that fails to serialize makes the call fail the
    same way). *)
Theorem toString_layout g o h tr :
  header g = Some h -> trailer g = Some tr ->
  let so := effective o g in
  answer (toString o) g =
  (pieces ← mapM (X12Transaction.toString so) (transactions g);
   Ok (String.concat (if format so then endOfLine so else "")
         (X12Segment.toString so h :: pieces ++ [X12Segment.toString so tr]))).
Proof. intros Hh Htr. unfold answer. by rewrite (toString_eq g o h tr). Qed.

(** C5.  Where the trailer's count element differs from the number of
    transactions, [toString] still returns: the text ends with the trailer
    as it stands (its tag and the text of its own elements), and the group
    keeps the differing count. *)
Theorem toString_emits_trailer_as_is g o h tr pieces :
  header g = Some h -> trailer g = Some tr ->
  let so := effective o g in
  mapM (X12Transaction.toString so) (transactions g) = Ok pieces ->
  shownCount g <> Some (decimal (length (transactions g))) ->
  answer (toString o) g =
    Ok (String.concat (lineBreak so) (X12Segment.toString so h :: pieces)
        +:+ lineBreak so
        +:+ String.concat (elementDelimiter so)
              (X12Segment.tag tr :: (X12Element.toString so <$> X12Segment.elements tr))
        +:+ segmentTerminator so)
  /\ let g' := after (toString o) g in
     trailer g' = Some tr
     /\ shownCount g' <> Some (decimal (length (transactions g'))).
Proof.
  intros Hh Htr so Hpieces Hcount. rewrite toString_after.
  split; [|done]. unfold answer. rewrite (toString_eq g o h tr) by done.
  fold so. rewrite Hpieces. cbn [mbind result_bind snd]. f_equal.
  apply (concat_snoc _ _ (X12Segment.toString so tr)).
Qed.

Lemma transactions_serialize so txs :
  forallb (fun tx => bool_decide (is_Some (X12Transaction.header tx))
                     && bool_decide (is_Some (X12Transaction.trailer tx))) txs = true ->
  exists pieces, mapM (X12Transaction.toString so) txs = Ok pieces.
Proof.
  induction txs as [|tx txs IH]; cbn [forallb]; [by exists []|].
  intros [[Hh%bool_decide_eq_true_1 Htr%bool_decide_eq_true_1]%andb_prop Htxs]%andb_prop.
  destruct (IH Htxs) as [pieces Hpieces], Hh as [h Hh], Htr as [tr Htr].
  assert (exists s, X12Transaction.toString so tx = Ok s) as [s Hs]
    by (unfold X12Transaction.toString; rewrite Hh, Htr; by eexists).
  cbn [mapM]. rewrite Hs, Hpieces. by eexists.
Qed.

Lemma toString_without_header g o :
  header g = None -> toString o g = (g, Throw TypeError).
Proof. intros Hh. run. by rewrite Hh. Qed.

(** C6, as the code has it.  [toString] returns on every well-formed group
    (header and trailer set, in the group and in each of its transactions),
    and on a group whose header was never set it fails with the runtime's
    [TypeError] for reading a property of [undefined]. *)
Theorem toString_fails_without_header g o :
  (wellFormed g = true -> exists edi, toString o g = (g, Ok edi))
  /\ (header g = None -> toString o g = (g, Throw TypeError)).
Proof.
  split; [|apply toString_without_header].
  unfold wellFormed.
  intros [[Hh%bool_decide_eq_true_1 Htr%bool_decide_eq_true_1]%andb_prop Htxs]%andb_prop.
  destruct Hh as [h Hh], Htr as [tr Htr].
  destruct (transactions_serialize (effective o g) _ Htxs) as [pieces Hpieces].
  rewrite (toString_eq g o h tr), Hpieces by done. by eexists.
Qed.

(** C7.  [toString] leaves the group as it found it: header, trailer (with
    its count element), transactions and stored options are the same after
    the call, and calling again with the same options answers the same. *)
Theorem toString_leaves_group_unchanged g o :
  let g' := after (toString o) g in
  header g' = header g /\ trailer g' = trailer g /\ shownCount g' = shownCount g
  /\ transactions g' = transactions g /\ options g' = options g
  /\ answer (toString o) g' = answer (toString o) g.
Proof. cbn zeta. by rewrite toString_after. Qed.

End Properties.

(** ** The methods on sample groups *)

Example built_by_calls_text :
  let g := X12FunctionalGroup.perform_all (H := Sample.defaults) (H0 := Sample.rules)
             [X12FunctionalGroup.AddTransaction None;
              X12FunctionalGroup.SetHeader (Some <$> Sample.gsValues) None;
              X12FunctionalGroup.AddTransaction None;
              X12FunctionalGroup.AddTransaction (Some Sample.formatted)]
             Sample.fresh in
  length (X12FunctionalGroup.transactions g) = 3
  /\ (X12Segment.toString Sample.compact <$> X12FunctionalGroup.trailer g) = Some "GE*3*7~".
Proof. vm_compute. done. Qed.

Example handBuilt_text :
  X12FunctionalGroup.answer (X12FunctionalGroup.toString (H := Sample.defaults) None)
    Sample.handBuilt
  = Ok "GS*PO*SENDER*RECEIVER*20240101*1200*7*X*004010~ST*850*0001~BEG*00*NE*PO1~SE*3*0001~GE*5*7~".
Proof. vm_compute. reflexivity. Qed.

Lemma toString_layout_witness :
  X12FunctionalGroup.answer
    (X12FunctionalGroup.toString (H := Sample.defaults) (Some Sample.formatted))
    Sample.handBuilt
  = Ok (String.concat Sample.LF
          ["GS*PO*SENDER*RECEIVER*20240101*1200*7*X*004010~";
           String.concat Sample.LF ["ST*850*0001~"; "BEG*00*NE*PO1~"; "SE*3*0001~"];
           "GE*5*7~"]).
Proof.
  exact (toString_layout (H := Sample.defaults) Sample.handBuilt (Some Sample.formatted)
           (Sample.segment "GS" Sample.gsValues) (Sample.segment "GE" ["5"; "7"])
           eq_refl eq_refl).
Defined.

Lemma toString_emits_trailer_as_is_witness :
  X12FunctionalGroup.shownCount Sample.handBuilt = Some "5"
  /\ length (X12FunctionalGroup.transactions Sample.handBuilt) = 1
  /\ X12FunctionalGroup.answer
       (X12FunctionalGroup.toString (H := Sample.defaults) None) Sample.handBuilt
     = Ok ("GS*PO*SENDER*RECEIVER*20240101*1200*7*X*004010~ST*850*0001~BEG*00*NE*PO1~SE*3*0001~"
           +:+ "GE*5*7~").
Proof.
  split; [reflexivity|]. split; [reflexivity|].
  refine (proj1 (toString_emits_trailer_as_is (H := Sample.defaults) Sample.handBuilt None
                   (Sample.segment "GS" Sample.gsValues) (Sample.segment "GE" ["5"; "7"])
                   ["ST*850*0001~BEG*00*NE*PO1~SE*3*0001~"] eq_refl eq_refl eq_refl _)).
  vm_compute. discriminate.
Defined.

Lemma missing_header_is_a_TypeError :
  X12FunctionalGroup.header Sample.fresh = None
  /\ X12FunctionalGroup.answer
       (X12FunctionalGroup.toString (H := Sample.defaults) None) Sample.fresh
     = Throw TypeError
  /\ X12FunctionalGroup.answer
       (X12FunctionalGroup.toString (H := Sample.defaults) None) Sample.fresh
     <> Throw IncompleteContainerError.
Proof. split; [reflexivity|]. split; [reflexivity|]. vm_compute. discriminate. Qed.

Lemma refused_setHeader_leaves_no_count :
  let setHeader :=
    X12FunctionalGroup.setHeader (H := Sample.defaults) (H0 := Sample.rules) [] None in
  let g := X12FunctionalGroup.after setHeader Sample.fresh in
  let g' := X12FunctionalGroup.after
              (X12FunctionalGroup.addTransaction (H := Sample.defaults) None) g in
  X12FunctionalGroup.answer setHeader Sample.fresh = Throw GeneratorError
  /\ X12FunctionalGroup.shownCount g = None
  /\ length (X12FunctionalGroup.transactions g') = 1
  /\ X12FunctionalGroup.shownCount g'
     <> Some (decimal (length (X12FunctionalGroup.transactions g'))).
Proof. vm_compute. split; [done|]. split; [done|]. split; [done|]. discriminate. Qed.


Lemma refused_setHeader_leaves_header_without_trailer :
  let setHeader :=
    X12FunctionalGroup.setHeader (H := Sample.defaults) (H0 := Sample.rules) [] None in
  let g := X12FunctionalGroup.after setHeader Sample.fresh in
  X12FunctionalGroup.answer setHeader Sample.fresh = Throw GeneratorError
  /\ X12FunctionalGroup.header g = Some (X12Segment.new "GS" Sample.compact)
  /\ X12FunctionalGroup.trailer g = None.
Proof. vm_compute. done. Qed.

Lemma setHeader_sets_header_and_trailer_witness :
  let setHeader :=
    X12FunctionalGroup.setHeader (H := Sample.defaults) (H0 := Sample.rules)
      (Some <$> Sample.gsValues) None in
  X12FunctionalGroup.answer setHeader Sample.fresh = Ok tt
  /\ exists h tr,
      X12FunctionalGroup.header (X12FunctionalGroup.after setHeader Sample.fresh) = Some h
      /\ X12FunctionalGroup.trailer (X12FunctionalGroup.after setHeader Sample.fresh) = Some tr
      /\ X12Segment.values h = Some <$> Sample.gsValues
      /\ X12Segment.values tr = [Some "0"; Some "7"].
Proof.
  assert (X12FunctionalGroup.answer
            (X12FunctionalGroup.setHeader (H := Sample.defaults) (H0 := Sample.rules)
               (Some <$> Sample.gsValues) None) Sample.fresh = Ok tt) as Hret
    by (vm_compute; reflexivity).
  split; [exact Hret|].
  destruct (setHeader_sets_header_and_trailer (H := Sample.defaults) (H0 := Sample.rules)
              Sample.fresh (Some <$> Sample.gsValues) None Hret)
    as (h & tr & Hh & Htr & _ & Hvs & _ & _ & Hcount & _).
  exists h, tr. split; [exact Hh|]. split; [exact Htr|]. split; [exact Hvs|].
  rewrite Hcount. revert Hh. vm_compute. intros [= <-]. reflexivity.
Defined.

(** ** Further properties of the methods *)

Section MoreProperties.
Context `{Defaults} `{SegmentRules}.
Import X12FunctionalGroup.

Implicit Types (g : t) (o : option X12SerializationOptions) (so : X12SerializationOptions).

Lemma addTransaction_frame g o :
  transactions (after (addTransaction o) g)
    = transactions g ++ [X12Transaction.new (effective o g)]
  /\ header (after (addTransaction o) g) = header g
  /\ options (after (addTransaction o) g) = options g.
Proof. unfold after. rewrite addTransaction_eq. by destruct (trailer g). Qed.

Lemma perform_transactions g c :
  transactions (perform g c)
  = transactions g ++
    match c with
    | AddTransaction o => [X12Transaction.new (effective o g)]
    | _ => []
    end.
Proof.
  destruct c as [elements o|o|o|]; cbn [perform].
  - destruct (setHeader_frame g elements o) as [-> _]. by rewrite app_nil_r.
  - apply addTransaction_frame.
  - by rewrite toString_after, app_nil_r.
  - by rewrite toJSON_after, app_nil_r.
Qed.

Lemma perform_options g c : options (perform g c) = options g.
Proof.
  destruct c as [elements o|o|o|]; cbn [perform].
  - apply setHeader_frame.
  - apply addTransaction_frame.
  - by rewrite toString_after.
  - by rewrite toJSON_after.
Qed.

Lemma perform_all_transactions cs g :
  transactions g `prefix_of` transactions (perform_all cs g)
  /\ length (transactions (perform_all cs g))
     = length (transactions g) + addTransactionCalls cs.
Proof.
  revert g. induction cs as [|c cs IH]; intros g.
  - split; [done|]. unfold addTransactionCalls. cbn. lia.
  - change (perform_all (c :: cs) g) with (perform_all cs (perform g c)).
    destruct (IH (perform g c)) as [Hpre Hlen]. rewrite Hlen.
    rewrite perform_transactions in Hpre |- *. split.
    + etrans; [|exact Hpre]. by apply prefix_app_r.
    + rewrite length_app. unfold addTransactionCalls.
      destruct c; cbn; lia.
Qed.

(** X1.  Every [addTransaction] call of a sequence of calls, whether it
    returns or throws, appends one transaction, and no other method adds or
    removes any: the transactions before the calls stay in front, in order,
    and their number grows by the number of [addTransaction] calls. *)
Theorem transactions_grow_by_addTransaction_calls cs g :
  transactions g `prefix_of` transactions (perform_all cs g)
  /\ length (transactions (perform_all cs g))
     = length (transactions g) + addTransactionCalls cs.
Proof. apply perform_all_transactions. Qed.

(** X7.  No method assigns [this.options]: after any sequence of calls the
    group still holds the options its constructor stored, so a call that is
    given no options works with those, whatever options earlier calls were
    given. *)
Theorem stored_options_never_change (o0 : option X12SerializationOptions) cs :
  options (perform_all cs (new o0)) = defaultSerializationOptions o0
  /\ effective None (perform_all cs (new o0)) = defaultSerializationOptions o0.
Proof.
  assert (forall g, options (perform_all cs g) = options g) as Hopt.
  { induction cs as [|c cs IH]; intros g; [done|].
    change (perform_all (c :: cs) g) with (perform_all cs (perform g c)).
    by rewrite IH, perform_options. }
  unfold effective. by rewrite Hopt.
Qed.

Lemma perform_all_cons c cs g : perform_all (c :: cs) g = perform_all cs (perform g c).
Proof. done. Qed.

Lemma addTransactions_without_trailer os g :
  trailer g = None ->
  let g' := perform_all (AddTransaction <$> os) g in
  trailer g' = None /\ header g' = header g.
Proof.
  revert g. induction os as [|o os IH]; intros g Htr; [done|].
  cbn zeta. rewrite fmap_cons, perform_all_cons. cbn [perform].
  assert (trailer (after (addTransaction o) g) = None
          /\ header (after (addTransaction o) g) = header g) as [Htr' Hh'].
  { unfold after. rewrite addTransaction_eq, Htr. done. }
  destruct (IH _ Htr') as [? Hh]. split; [done|]. by rewrite Hh, Hh'.
Qed.

Lemma addTransactionCalls_fmap os : addTransactionCalls (AddTransaction <$> os) = length os.
Proof.
  unfold addTransactionCalls. induction os as [|o os IH]; [done|].
  cbn. by rewrite IH.
Qed.

(** X2.  On a group whose header was never set, every [addTransaction] of a
    sequence throws, yet each one has appended its transaction; a later
    [setHeader] that returns counts them all in the trailer. *)
Theorem failed_addTransactions_are_counted (o0 : option X12SerializationOptions)
  (os : list (option X12SerializationOptions)) (elements : list jsstring)
  (o : option X12SerializationOptions) :
  let g := perform_all (AddTransaction <$> os) (new o0) in
  header g = None /\ trailer g = None
  /\ (forall o', answer (addTransaction o') g = Throw TypeError)
  /\ length (transactions g) = length os
  /\ (answer (setHeader elements o) g = Ok tt ->
      shownCount (after (setHeader elements o) g) = Some (decimal (length os))).
Proof.
  intros g.
  destruct (addTransactions_without_trailer os (new o0) eq_refl) as [Htr Hh].
  fold g in Htr, Hh.
  assert (length (transactions g) = length os) as Hlen.
  { unfold g. destruct (perform_all_transactions
                          (AddTransaction <$> os) (new o0)) as [_ ->].
    by rewrite addTransactionCalls_fmap. }
  split; [done|]. split; [done|]. split; [|split; [done|]].
  - intros o'. unfold answer. by rewrite addTransaction_eq, Htr.
  - intros Hret. rewrite <- Hlen.
    pose proof (setHeader_countSynchronized g elements o Hret) as Hcount.
    unfold countSynchronized in Hcount.
    by destruct (setHeader_frame g elements o) as [<- _].
Qed.

Lemma stored_values (vs : list jsstring) :
  X12Segment.stored <$> (X12Element.value <$> (X12Segment.stored <$> vs))
  = X12Segment.stored <$> vs.
Proof. rewrite <- !list_fmap_compose. by apply list_fmap_ext. Qed.

Lemma setHeader_enveloped g elements o :
  answer (setHeader elements o) g = Ok tt ->
  enveloped (after (setHeader elements o) g).
Proof.
  intros Hret. rewrite (setHeader_returned _ _ _ Hret). cbn zeta.
  do 2 eexists. split; [done|]. split; [done|]. split; [done|].
  split; [|done]. unfold X12Segment.values. cbn [X12Segment.elements].
  by rewrite stored_values.
Qed.

Lemma addTransaction_enveloped g o :
  enveloped g -> enveloped (after (addTransaction o) g).
Proof.
  intros (h & tr & Hh & Htr & Hgs & Hplain & Hge & Hels).
  unfold after. rewrite addTransaction_eq, Htr. cbn.
  exists h. eexists. split; [done|]. split; [done|].
  split; [done|]. split; [done|]. split; [done|].
  cbn. by rewrite Hels.
Qed.

Lemma perform_enveloped g c :
  isSetHeader c = false -> enveloped g ->
  enveloped (perform g c) /\ header (perform g c) = header g.
Proof.
  destruct c as [elements o|o|o|]; cbn [perform isSetHeader]; intros Hc Hg.
  - done.
  - split; [by apply addTransaction_enveloped|apply addTransaction_frame].
  - by rewrite toString_after.
  - by rewrite toJSON_after.
Qed.

Lemma perform_all_enveloped cs g :
  Forall (fun c => isSetHeader c = false) cs -> enveloped g ->
  enveloped (perform_all cs g) /\ header (perform_all cs g) = header g.
Proof.
  intros Hcs. revert g. induction Hcs as [|c cs Hc _ IH]; intros g Hg; [done|].
  destruct (perform_enveloped g c Hc Hg) as [Hg' Hh'].
  destruct (IH _ Hg') as [? Hh]. split; [done|].
  change (perform_all (c :: cs) g) with (perform_all cs (perform g c)).
  by rewrite Hh, Hh'.
Qed.

(** X3.  Once a [setHeader] call has returned, any sequence of calls of
    [addTransaction], [toString] and [toJSON], in any order, leaves a complete
    envelope: the GS header as [setHeader] stored it, and a GE trailer of
    exactly two elements, the number of transactions as a decimal numeral and
    the value of the header's sixth element. *)
Theorem envelope_survives_later_calls g (elements : list jsstring) o cs :
  answer (setHeader elements o) g = Ok tt ->
  Forall (fun c => isSetHeader c = false) cs ->
  let g' := perform_all cs (after (setHeader elements o) g) in
  exists h tr,
    header g' = Some h /\ trailer g' = Some tr
    /\ X12Segment.tag h = "GS"
    /\ X12Segment.values h = (fun v => Some (js_to_string v)) <$> elements
    /\ X12Segment.tag tr = "GE"
    /\ X12Segment.values tr
       = [Some (decimal (length (transactions g')));
          Some (js_to_string (X12Segment.valueOf 6 h))].
Proof.
  intros Hret Hcs g'.
  destruct (perform_all_enveloped cs _ Hcs (setHeader_enveloped g elements o Hret))
    as [(h & tr & Hh & Htr & Hgs & _ & Hge & Hels) Hsame].
  fold g' in Hh, Htr, Hels, Hsame. exists h, tr.
  split; [done|]. split; [done|]. split; [done|]. split.
  { rewrite Hh, (setHeader_returned _ _ _ Hret) in Hsame. cbn in Hsame.
    injection Hsame as ->. apply values_stored. }
  split; [done|]. unfold X12Segment.values. by rewrite Hels.
Qed.

Lemma mapM_transactionNotation_cases txs :
  match mapM transactionNotation txs with
  | Ok _ => Forall (fun tx => is_Some (X12Transaction.header tx)) txs
  | Throw e =>
      e = TypeError /\ ~ Forall (fun tx => is_Some (X12Transaction.header tx)) txs
  end.
Proof.
  induction txs as [|tx txs IH]; [by constructor|].
  cbn [mapM]. pose proof (eq_refl (transactionNotation tx)) as Htx.
  unfold transactionNotation at 2 in Htx. rewrite Htx. clear Htx.
  destruct (X12Transaction.header tx) as [th|] eqn:Hth; cbn.
  - destruct (mapM transactionNotation txs) as [ns|e]; cbn.
    + constructor; [by rewrite Hth|done].
    + destruct IH as [-> IH]. split; [done|]. by intros [_ ?]%Forall_cons.
  - split; [done|]. intros [[? [=]] _]%Forall_cons. congruence.
Qed.

(** X4.  [toJSON] returns exactly when the header of the group and the header
    of each of its transactions are set, and fails with [TypeError] otherwise;
    the group's trailer plays no part, set or not. *)
Theorem toJSON_returns_iff_headers_set g :
  (is_Ok (answer toJSON g) = true
   <-> is_Some (header g)
       /\ Forall (fun tx => is_Some (X12Transaction.header tx)) (transactions g))
  /\ (forall e, answer toJSON g = Throw e -> e = TypeError)
  /\ (forall tr, answer toJSON (set_trailer tr g) = answer toJSON g).
Proof.
  unfold answer. setoid_rewrite toJSON_eq. cbn [snd]. unfold groupNotation.
  pose proof (mapM_transactionNotation_cases (transactions g)) as Hcases.
  cbn [set_trailer header transactions].
  destruct (header g) as [h|]; [|split; [|split]].
  - destruct (mapM transactionNotation (transactions g)) as [ns|e']; cbn.
    + split; [|split]; [|done..]. split; [by eauto|done].
    + destruct Hcases as [-> Hnot]. split; [|split]; [|by intros ? [= <-]|done].
      split; [done|]. by intros [_ ?].
  - split; [done|]. by intros [[? [=]] _].
  - by intros ? [= <-].
  - done.
Qed.

Lemma toString_cases g o :
  toString o g =
  (g, match header g with
      | None => Throw TypeError
      | Some h =>
          pieces ← mapM (X12Transaction.toString (effective o g)) (transactions g);
          match trailer g with
          | None => Throw TypeError
          | Some tr =>
              Ok (String.concat (lineBreak (effective o g))
                    (X12Segment.toString (effective o g) h
                     :: pieces ++ [X12Segment.toString (effective o g) tr]))
          end
      end).
Proof.
  destruct (header g) as [h|] eqn:Hh; [|by apply toString_without_header].
  destruct (trailer g) as [tr|] eqn:Htr; [by apply toString_eq|].
  cbv [toString resolve mbind bind mret ret read deref lift]. cbn.
  rewrite Hh, toString_loop_mapM.
  destruct (mapM _ (transactions g)) as [pieces|e]; cbn; [|done]. by rewrite Htr.
Qed.

Lemma mapM_toString_cases so txs :
  is_Ok (mapM (X12Transaction.toString so) txs) = true
  <-> Forall (fun tx => is_Ok (X12Transaction.toString so tx) = true) txs.
Proof.
  induction txs as [|tx txs IH]; [by split; [constructor|]|].
  rewrite Forall_cons, <- IH. cbn [mapM].
  destruct (X12Transaction.toString so tx) as [s|e]; cbn; [|by split; [|intros []]].
  destruct (mapM (X12Transaction.toString so) txs); cbn; by split; [|intros []].
Qed.

(** X5.  [toString] returns exactly when the header and the trailer are set
    and every transaction serializes; in particular a group with a header but
    no trailer makes it throw, as one with no header does. *)
Theorem toString_returns_iff_complete g o :
  is_Ok (answer (toString o) g) = true
  <-> is_Some (header g) /\ is_Some (trailer g)
      /\ Forall (fun tx => is_Ok (X12Transaction.toString (effective o g) tx) = true)
            (transactions g).
Proof.
  unfold answer. rewrite toString_cases. cbn [snd].
  rewrite <- mapM_toString_cases.
  destruct (header g) as [h|]; [|by split; [|intros [[? [=]] _]]].
  destruct (mapM _ (transactions g)) as [pieces|e]; cbn.
  - destruct (trailer g) as [tr|]; cbn; [by eauto|].
    split; [done|]. by intros (_ & [? [=]] & _).
  - split; [done|]. by intros (_ & _ & ?).
Qed.

Lemma segment_toString_ext so (s1 s2 : X12Segment.t) :
  X12Segment.tag s1 = X12Segment.tag s2 ->
  X12Segment.elements s1 = X12Segment.elements s2 ->
  X12Segment.toString so s1 = X12Segment.toString so s2.
Proof. unfold X12Segment.toString. by intros -> ->. Qed.

(** X6.  On a group built through its methods (a [setHeader] that returned,
    then [addTransaction], [toString] and [toJSON] calls), a further
    [setHeader] with the values of the header the group has (the list [toJSON]
    emits for the header), if it returns, changes nothing that can be read
    back: [toString] and [toJSON] answer as before, and the transactions are
    the same. *)
Theorem setHeader_with_own_values_changes_nothing g0 (elements : list jsstring) o cs o2 o3 :
  answer (setHeader elements o) g0 = Ok tt ->
  Forall (fun c => isSetHeader c = false) cs ->
  let g := perform_all cs (after (setHeader elements o) g0) in
  exists h,
    header g = Some h
    /\ (answer (setHeader (X12Segment.values h) o2) g = Ok tt ->
        let g' := after (setHeader (X12Segment.values h) o2) g in
        answer (toString o3) g' = answer (toString o3) g
        /\ answer toJSON g' = answer toJSON g
        /\ transactions g' = transactions g).
Proof.
  intros Hret Hcs g.
  destruct (perform_all_enveloped cs _ Hcs (setHeader_enveloped g0 elements o Hret))
    as [(h & tr & Hh & Htr & Hgs & Hplain & Hge & Hels) _].
  fold g in Hh, Htr, Hels. exists h. split; [done|]. intros Hret2 g'.
  assert (exists h' tr',
            header g' = Some h' /\ trailer g' = Some tr'
            /\ X12Segment.tag h' = X12Segment.tag h
            /\ X12Segment.elements h' = X12Segment.elements h
            /\ X12Segment.tag tr' = X12Segment.tag tr
            /\ X12Segment.elements tr' = X12Segment.elements tr
            /\ transactions g' = transactions g /\ options g' = options g)
    as (h' & tr' & Hh' & Htr' & Htag & Helems & Htag' & Helems' & Htxs & Hopts).
  { unfold g'. rewrite (setHeader_returned _ _ _ Hret2). cbn zeta. do 2 eexists.
    split; [done|]. split; [done|]. split; [by rewrite Hgs|].
    split; [by rewrite Hplain|]. split; [by rewrite Hge|].
    split; [|done]. rewrite Hels. cbn [X12Segment.elements].
    unfold X12Segment.valueOf. cbn [X12Segment.elements]. by rewrite <- Hplain. }
  split; [|split; [|done]].
  - unfold answer. rewrite (toString_eq g' o3 h' tr'), (toString_eq g o3 h tr) by done.
    assert (effective o3 g' = effective o3 g) as -> by (by destruct o3; cbn).
    rewrite Htxs.
    by rewrite (segment_toString_ext _ h' h), (segment_toString_ext _ tr' tr).
  - unfold answer. rewrite !toJSON_eq. cbn [snd]. unfold groupNotation.
    rewrite Hh', Hh, Htxs. unfold X12Segment.values. by rewrite Helems.
Qed.

(** X8.  [addTransaction] creates the transaction with the options the call
    works with (the given ones with defaults filled in, else the group's),
    stores it as the last transaction, and, where the trailer is set, returns
    that same transaction; the header is not touched. *)
Theorem addTransaction_returns_the_stored_transaction g o :
  let tx := X12Transaction.new (effective o g) in
  let g' := after (addTransaction o) g in
  last (transactions g') = Some tx
  /\ X12Transaction.options tx
     = match o with
       | Some given => defaultSerializationOptions (Some given)
       | None => options g
       end
  /\ header g' = header g
  /\ (is_Some (trailer g) -> answer (addTransaction o) g = Ok tx).
Proof.
  intros tx g'. destruct (addTransaction_frame g o) as (Htxs & Hh & _).
  fold g' tx in Htxs, Hh. split; [by rewrite Htxs, last_snoc|].
  split; [by destruct o|]. split; [done|].
  intros [tr Htr]. by destruct (addTransaction_run g o tr Htr) as [? _].
Qed.
End MoreProperties.

Lemma envelope_survives_later_calls_witness :
  let g' :=
    X12FunctionalGroup.perform_all (H := Sample.defaults) (H0 := Sample.rules)
      [X12FunctionalGroup.AddTransaction None;
       X12FunctionalGroup.ToString None;
       X12FunctionalGroup.ToJSON;
       X12FunctionalGroup.AddTransaction (Some Sample.formatted)]
      (X12FunctionalGroup.after
         (X12FunctionalGroup.setHeader (H := Sample.defaults) (H0 := Sample.rules)
            (Some <$> Sample.gsValues) None)
         Sample.fresh) in
  exists h tr,
    X12FunctionalGroup.header g' = Some h /\ X12FunctionalGroup.trailer g' = Some tr
    /\ X12Segment.values h = Some <$> Sample.gsValues
    /\ X12Segment.values tr = [Some "2"; Some "7"].
Proof.
  intros g'.
  assert (X12FunctionalGroup.answer
            (X12FunctionalGroup.setHeader (H := Sample.defaults) (H0 := Sample.rules)
               (Some <$> Sample.gsValues) None) Sample.fresh = Ok tt) as Hret
    by (vm_compute; reflexivity).
  destruct (envelope_survives_later_calls (H := Sample.defaults) (H0 := Sample.rules)
              Sample.fresh (Some <$> Sample.gsValues) None
              [X12FunctionalGroup.AddTransaction None;
               X12FunctionalGroup.ToString None;
               X12FunctionalGroup.ToJSON;
               X12FunctionalGroup.AddTransaction (Some Sample.formatted)]
              Hret ltac:(repeat constructor))
    as (h & tr & Hh & Htr & _ & Hvs & _ & Hcount).
  exists h, tr. split; [exact Hh|]. split; [exact Htr|]. split; [exact Hvs|].
  rewrite Hcount. revert Hh. vm_compute. intros [= <-]. reflexivity.
Defined.

Lemma setHeader_with_own_values_changes_nothing_witness :
  let g :=
    X12FunctionalGroup.perform_all (H := Sample.defaults) (H0 := Sample.rules)
      [X12FunctionalGroup.ToString None; X12FunctionalGroup.ToJSON]
      (X12FunctionalGroup.after
         (X12FunctionalGroup.setHeader (H := Sample.defaults) (H0 := Sample.rules)
            (Some <$> Sample.gsValues) None)
         Sample.fresh) in
  exists h,
    X12FunctionalGroup.header g = Some h
    /\ let again :=
         X12FunctionalGroup.setHeader (H := Sample.defaults) (H0 := Sample.rules)
           (X12Segment.values h) None in
       X12FunctionalGroup.answer again g = Ok tt
       /\ X12FunctionalGroup.answer
            (X12FunctionalGroup.toString (H := Sample.defaults) None)
            (X12FunctionalGroup.after again g)
          = Ok "GS*PO*SENDER*RECEIVER*20240101*1200*7*X*004010~GE*0*7~".
Proof.
  intros g.
  assert (X12FunctionalGroup.answer
            (X12FunctionalGroup.setHeader (H := Sample.defaults) (H0 := Sample.rules)
               (Some <$> Sample.gsValues) None) Sample.fresh = Ok tt) as Hret
    by (vm_compute; reflexivity).
  destruct (setHeader_with_own_values_changes_nothing
              (H := Sample.defaults) (H0 := Sample.rules)
              Sample.fresh (Some <$> Sample.gsValues) None
              [X12FunctionalGroup.ToString None; X12FunctionalGroup.ToJSON] None None
              Hret ltac:(repeat constructor))
    as (h & Hh & Hsame).
  exists h. split; [exact Hh|]. intros again.
  pose proof Hh as Hh'. vm_compute in Hh'. injection Hh' as <-.
  assert (X12FunctionalGroup.answer again g = Ok tt) as Hret2
    by (vm_compute; reflexivity).
  split; [exact Hret2|].
  destruct (Hsame Hret2) as [Heq _]. etrans; [exact Heq|]. vm_compute. reflexivity.
Defined.
